(** * MultipleValueTextInput: a React text input keeping a collection of strings

    Shallow embedding of [src/components/MultipleValueTextInput.js].

    The component owns [this.state = { values, value }]: the collection of
    entered strings and the text being typed.  Its handlers never touch
    [this.state] directly: they read it, queue [setState] patches, and call
    the caller's [onItemAdded] / [onItemDeleted].  A handler is therefore
    embedded as a function of the props and of the state it reads, returning
    the ordered log of what it did (a writer monad with exceptions); React
    merges the queued patches into the state once the handler has returned.
    What the caller's callbacks do when called is theirs and is not part of
    the model: a call is one entry of the log. *)

From Stdlib Require Import ZArith String.
From stdpp Require Import base decidable option list strings gmap.

(** ** The JavaScript fragment the component uses *)

Module Js.

Inductive exn := TypeError.

Inductive completion (A : Type) :=
| Normal (a : A)
| Throw (e : exn).
Arguments Normal {A} a.
Arguments Throw {A} e.

(** [arr.includes(x)]: SameValueZero is plain equality on strings and on
    integer key codes. *)
Definition includes `{EqDecision A} (arr : list A) (x : A) : bool :=
  bool_decide (x ∈ arr).

(** [arr.concat(x)] for an [x] that is not an array: a new array with [x]
    after the elements of [arr]. *)
Definition concat {A} (arr : list A) (x : A) : list A := arr ++ [x].

(** [!s] for a string: only the empty string is falsy. *)
Definition falsy (s : string) : bool := bool_decide (s = EmptyString).

(** [arr.length] as a condition: [0] is falsy. *)
Definition truthy_length {A} (arr : list A) : bool :=
  negb (bool_decide (length arr = 0%nat)).

End Js.
Import Js.

(** ** Props and state *)

(** What [deleteButton] (a [PropTypes.node]) can hold. *)
Inductive node :=
| TimesSpan                (* <span>&times;</span> *)
| Text (s : string).

Inductive method := HandleKeypress | HandleValueChange.

(** Values the caller can put in a prop. *)
Inductive propval :=
| PBool (b : bool)
| PNum (z : Z)
| PStr (s : string)
| PNull
| PStrings (l : list string)
| PNums (l : list Z)
| PCallerFn (id : string).   (* a function owned by the caller *)

(** Values found among the attributes of the rendered [<input>]: what the
    caller's props carry, or a bound method of the component. *)
Inductive attrval :=
| Forwarded (v : propval)
| Bound (m : method).

(** [this.props] after React has filled in [defaultProps].  [values] is
    [None] when the caller passed [null] (a default only replaces
    [undefined]).  [onItemAdded] and [onItemDeleted] are the caller's
    functions: calling them is recorded in the handler's log.  [extra] holds
    every other prop the caller passed. *)
Module Props.
Record t := {
  values : option (list string);
  label : string;
  name : string;
  placeholder : string;
  charCodes : list Z;
  deleteButton : node;
  extra : gmap string propval
}.
End Props.

(** The props as the caller wrote them: [None] is a prop left out. *)
Module Raw.
Record t := {
  values : option (option (list string));
  label : option string;
  name : string;
  placeholder : option string;
  charCodes : option (list Z);
  deleteButton : option node;
  extra : gmap string propval
}.
End Raw.

Module Defaults.
Record t := {
  placeholder : string;
  charCodes : list Z;
  deleteButton : node;
  values : list string;
  label : string
}.
End Defaults.

Definition defaultProps : Defaults.t :=
  {| Defaults.placeholder := "";
     Defaults.charCodes := [13%Z; 44%Z];
     Defaults.deleteButton := TimesSpan;
     Defaults.values := [];
     Defaults.label := "" |}.

(** React's resolution of [defaultProps]: a default is used exactly for the
    props that are [undefined]. *)
Definition resolveDefaultProps (r : Raw.t) : Props.t :=
  {| Props.values := default (Some (Defaults.values defaultProps)) (Raw.values r);
     Props.label := default (Defaults.label defaultProps) (Raw.label r);
     Props.name := Raw.name r;
     Props.placeholder := default (Defaults.placeholder defaultProps) (Raw.placeholder r);
     Props.charCodes := default (Defaults.charCodes defaultProps) (Raw.charCodes r);
     Props.deleteButton := default (Defaults.deleteButton defaultProps) (Raw.deleteButton r);
     Props.extra := Raw.extra r |}.

Module State.
Record t := {
  values : option (list string);   (* [None]: null *)
  value : string
}.
End State.

(** The argument of a [setState] call: the keys it mentions. *)
Record Patch := {
  patch_values : option (list string);
  patch_value : option string
}.

(** The event fields the handlers read: [e.charCode] and [e.target.value]. *)
Record SyntheticEvent := {
  charCode : Z;
  target_value : string
}.

(** ** Handlers as logged computations *)

(** What a handler can do, besides reading: [e.preventDefault()],
    [this.setState(u)], a call of [onItemAdded] or [onItemDeleted], and (for
    an event the caller listens to itself) a call of a caller's function. *)
Inductive effect :=
| PreventDefault
| SetState (u : Patch)
| OnItemAdded (value : string) (newValues : list string)
| OnItemDeleted (value : string) (newValues : list string)
| CallerFn (id : string).

Record Handler (A : Type) := mkHandler {
  log : list effect;
  outcome : completion A
}.
Arguments mkHandler {A} log outcome.
Arguments log {A} h.
Arguments outcome {A} h.

#[global] Instance Handler_ret : MRet Handler :=
  λ A a, mkHandler [] (Normal a).

#[global] Instance Handler_bind : MBind Handler :=
  λ A B f m,
    match outcome m with
    | Normal a => mkHandler (log m ++ log (f a)) (outcome (f a))
    | Throw e => mkHandler (log m) (Throw e)
    end.

Definition perform (e : effect) : Handler () := mkHandler [e] (Normal ()).

Definition throw {A} (e : exn) : Handler A := mkHandler [] (Throw e).

(** Calling a method on [r]: a [TypeError] when [r] is null. *)
Definition receiver {A} (r : option A) : Handler A :=
  match r with
  | Some a => mret a
  | None => throw TypeError
  end.

(** [this.state = { values: props.values, value: '' }]. *)
Definition constructor (props : Props.t) : State.t :=
  {| State.values := Props.values props; State.value := "" |}.

(** [handleItemAdd(value, onItemAdded)]; its one caller, [handleKeypress],
    passes [this.props.onItemAdded] as second argument. *)
Definition handleItemAdd (state : State.t) (value : string) : Handler () :=
  values ← receiver (State.values state);
  if includes values value || falsy value then
    perform (SetState {| patch_values := None; patch_value := Some "" |})
  else
    let newValues := concat values value in
    perform (SetState {| patch_values := Some newValues; patch_value := Some "" |});;
    perform (OnItemAdded value newValues).

Definition handleKeypress (props : Props.t) (state : State.t)
    (e : SyntheticEvent) : Handler () :=
  if includes (Props.charCodes props) (charCode e) then
    perform PreventDefault;;
    handleItemAdd state (target_value e)
  else mret ().

Definition handleValueChange (e : SyntheticEvent) : Handler () :=
  perform (SetState {| patch_values := None; patch_value := Some (target_value e) |}).

(** [handleItemRemove(value)]: the callback is called first, then the patch
    is queued. *)
Definition handleItemRemove (state : State.t) (value : string) : Handler () :=
  currentValues ← receiver (State.values state);
  let newValues := filter (λ v, v ≠ value) currentValues in
  perform (OnItemDeleted value newValues);;
  perform (SetState {| patch_values := Some newValues; patch_value := None |}).

(** ** State after a handler *)

(** [setState] merges the keys of the patch into the state. *)
Definition merge (state : State.t) (u : Patch) : State.t :=
  {| State.values :=
       match patch_values u with
       | Some l => Some l
       | None => State.values state
       end;
     State.value := default (State.value state) (patch_value u) |}.

(** The queued patches of a log, merged in order. *)
Definition flush (state : State.t) (l : list effect) : State.t :=
  foldl (λ s e, match e with SetState u => merge s u | _ => s end) state l.

(** The state React holds once handler [h], started on [state], is over. *)
Definition after (state : State.t) (h : Handler ()) : State.t :=
  flush state (log h).

(** The calls a log makes to the caller's two callbacks. *)
Definition added (l : list effect) : list (string * list string) :=
  omap (λ e, match e with OnItemAdded v s => Some (v, s) | _ => None end) l.

Definition deleted (l : list effect) : list (string * list string) :=
  omap (λ e, match e with OnItemDeleted v s => Some (v, s) | _ => None end) l.

(** ** Rendering *)

(** The props given to one [<MultipleValueTextInputItem>]; its
    [handleItemRemove] prop is always [this.handleItemRemove]. *)
Record ItemElement := {
  item_value : string;
  item_key : string;
  item_deleteButton : node
}.

Record View := {
  view_htmlFor : string;
  view_label : string;
  valueDisplays : list ItemElement;
  input_props : gmap string attrval
}.

Definition nullable_strings (v : option (list string)) : propval :=
  match v with
  | Some l => PStrings l
  | None => PNull
  end.

(** The rest of [this.props] once [placeholder], [label], [name],
    [deleteButton], [onItemAdded] and [onItemDeleted] are taken out. *)
Definition forwardedProps (props : Props.t) : gmap string propval :=
  <["values" := nullable_strings (Props.values props)]>
    (<["charCodes" := PNums (Props.charCodes props)]>
       (foldr delete (Props.extra props)
          ["placeholder"; "label"; "name"; "deleteButton";
           "onItemAdded"; "onItemDeleted"])).

(** The [values] constant of [render]:
    [this.state.values && this.state.values.length ? this.state.values
     : this.props.values]. *)
Definition displayed (props : Props.t) (state : State.t) : option (list string) :=
  match State.values state with
  | Some l => if truthy_length l then State.values state else Props.values props
  | None => Props.values props
  end.

(** The attributes of [<input>]: the ones the component writes first, the
    forwarded ones spread over them. *)
Definition inputProps (props : Props.t) (state : State.t) : gmap string attrval :=
  (Forwarded <$> forwardedProps props) ∪
  <["name" := Forwarded (PStr (Props.name props))]>
    (<["placeholder" := Forwarded (PStr (Props.placeholder props))]>
       (<["value" := Forwarded (PStr (State.value state))]>
          (<["type" := Forwarded (PStr "text")]>
             (<["onKeyPress" := Bound HandleKeypress]>
                (<["onChange" := Bound HandleValueChange]> ∅))))).

Definition render (props : Props.t) (state : State.t) : completion View :=
  match displayed props state with
  | None => Throw TypeError            (* [values.map] on null *)
  | Some values =>
      Normal
        {| view_htmlFor := Props.name props;
           view_label := Props.label props;
           valueDisplays :=
             map (λ v, {| item_value := v; item_key := v;
                          item_deleteButton := Props.deleteButton props |}) values;
           input_props := inputProps props state |}
  end.

(** The values of the rows on screen, in order. *)
Definition rows (props : Props.t) (state : State.t) : completion (list string) :=
  match render props state with
  | Normal view => Normal (item_value <$> valueDisplays view)
  | Throw e => Throw e
  end.

(** ** Events reaching the rendered widget *)

Inductive DomEvent :=
| KeyPress (e : SyntheticEvent)
| Change (e : SyntheticEvent)
| Blur (e : SyntheticEvent)
| RemoveClick (row : nat).

(** What React does with an event on [<input>]: it calls the function found
    under the event's prop name, if any. *)
Definition listener (props : Props.t) (state : State.t)
    (f : option attrval) (e : SyntheticEvent) : Handler () :=
  match f with
  | Some (Bound HandleKeypress) => handleKeypress props state e
  | Some (Bound HandleValueChange) => handleValueChange e
  | Some (Forwarded (PCallerFn id)) => perform (CallerFn id)
  | _ => mret ()
  end.

(** Modelled from the spec: [MultipleValueTextInputItem] is imported by the
    component but is not among the sources.  By section 4.2 of the
    specification its removal control, when activated, calls the
    [handleItemRemove] it was given with the exact value of its row. *)
Definition removalControl (state : State.t) (item : ItemElement) : Handler () :=
  handleItemRemove state (item_value item).

Definition dispatch (props : Props.t) (state : State.t) (ev : DomEvent) : Handler () :=
  match render props state with
  | Throw _ => mret ()                 (* nothing is on screen *)
  | Normal view =>
      match ev with
      | KeyPress e => listener props state (input_props view !! "onKeyPress") e
      | Change e => listener props state (input_props view !! "onChange") e
      | Blur e => listener props state (input_props view !! "onBlur") e
      | RemoveClick row =>
          match valueDisplays view !! row with
          | Some item => removalControl state item
          | None => mret ()
          end
      end
  end.

(** ** Runs of the component *)

(** One call of a method of the component. *)
Inductive call :=
| CallKeypress (e : SyntheticEvent)
| CallValueChange (e : SyntheticEvent)
| CallItemAdd (value : string)
| CallItemRemove (value : string).

Definition invoke (props : Props.t) (state : State.t) (c : call) : Handler () :=
  match c with
  | CallKeypress e => handleKeypress props state e
  | CallValueChange e => handleValueChange e
  | CallItemAdd value => handleItemAdd state value
  | CallItemRemove value => handleItemRemove state value
  end.

(** Calls made one after the other, each on the state the previous one
    left; the logs are put end to end. *)
Fixpoint session (props : Props.t) (state : State.t) (cs : list call)
    : State.t * list effect :=
  match cs with
  | [] => (state, [])
  | c :: cs' =>
      let h := invoke props state c in
      let r := session props (after state h) cs' in
      (r.1, log h ++ r.2)
  end.

(** The same for events on the rendered widget. *)
Fixpoint interaction (props : Props.t) (state : State.t) (evs : list DomEvent)
    : State.t * list effect :=
  match evs with
  | [] => (state, [])
  | ev :: evs' =>
      let h := dispatch props state ev in
      let r := interaction props (after state h) evs' in
      (r.1, log h ++ r.2)
  end.

(** States the component can be in, having started in [init]; the props may
    differ from one call to the next. *)
Inductive reachable (init : State.t) : State.t → Prop :=
| reachable_init : reachable init init
| reachable_call state props c :
    reachable init state →
    reachable init (after state (invoke props state c)).

(** The collection holds no string twice. *)
Definition duplicate_free (state : State.t) : Prop :=
  ∃ l, State.values state = Some l ∧ NoDup l.

(** A state holding collection [l] and draft text [draft]. *)
Definition holding (l : list string) (draft : string) : State.t :=
  {| State.values := Some l; State.value := draft |}.

(** The collections a log hands to the caller, whichever callback carries
    them, in call order. *)
Definition notified (l : list effect) : list (list string) :=
  omap (λ e, match e with
             | OnItemAdded _ s | OnItemDeleted _ s => Some s
             | _ => None
             end) l.

(** The React keys of the rows of a view, in order. *)
Definition keys (view : View) : list string := item_key <$> valueDisplays view.

(** The prop names [render] does not leave to the spread: the six it takes
    out of [this.props], and [values] and [charCodes], which [this.props]
    always carries. *)
Definition ownNames : list string :=
  ["placeholder"; "label"; "name"; "deleteButton"; "onItemAdded";
   "onItemDeleted"; "values"; "charCodes"].

(** * Properties *)

Example handleItemAdd_abc :
  let h := handleItemAdd (holding ["x"] "abc") "abc" in
  after (holding ["x"] "abc") h = holding ["x"; "abc"] ""
  ∧ added (log h) = [("abc", ["x"; "abc"])].
Proof. split; reflexivity. Qed.

Example scenario_A :
  let props := resolveDefaultProps
    {| Raw.values := None; Raw.label := None; Raw.name := "test-input";
       Raw.placeholder := None; Raw.charCodes := None;
       Raw.deleteButton := None; Raw.extra := ∅ |} in
  let r := interaction props (constructor props)
    [Change {| charCode := 0; target_value := "abc" |};
     KeyPress {| charCode := 13; target_value := "abc" |};
     Change {| charCode := 0; target_value := "abc2" |};
     KeyPress {| charCode := 44; target_value := "abc2" |}] in
  r.1 = holding ["abc"; "abc2"] ""
  ∧ added r.2 = [("abc", ["abc"]); ("abc2", ["abc"; "abc2"])].
Proof. vm_compute. split; reflexivity. Qed.

(** ** What each handler logs on a state that holds a collection *)

Section on_a_collection.
Variables (l : list string) (draft : string).

Lemma handleItemAdd_rejects (candidate : string) :
  candidate = "" ∨ candidate ∈ l →
  handleItemAdd (holding l draft) candidate =
    mkHandler [SetState {| patch_values := None; patch_value := Some "" |}]
              (Normal ()).
Proof.
  intros Hrej. unfold handleItemAdd, holding; cbn.
  assert (includes l candidate || falsy candidate = true) as ->; [|done].
  unfold includes, falsy. apply orb_true_iff.
  destruct Hrej as [->|Hin]; [right|left]; by apply bool_decide_eq_true.
Qed.

Lemma handleItemAdd_commits (candidate : string) :
  candidate ≠ "" → candidate ∉ l →
  handleItemAdd (holding l draft) candidate =
    mkHandler
      [SetState {| patch_values := Some (l ++ [candidate]); patch_value := Some "" |};
       OnItemAdded candidate (l ++ [candidate])]
      (Normal ()).
Proof.
  intros Hne Hfresh. unfold handleItemAdd, holding; cbn.
  assert (includes l candidate || falsy candidate = false) as ->; [|done].
  unfold includes, falsy. apply orb_false_iff.
  split; by apply bool_decide_eq_false.
Qed.

Lemma handleItemRemove_logs (value : string) :
  handleItemRemove (holding l draft) value =
    mkHandler
      [OnItemDeleted value (filter (λ v, v ≠ value) l);
       SetState {| patch_values := Some (filter (λ v, v ≠ value) l);
                   patch_value := None |}]
      (Normal ()).
Proof. reflexivity. Qed.

Lemma after_handleItemAdd_rejected (candidate : string) :
  candidate = "" ∨ candidate ∈ l →
  after (holding l draft) (handleItemAdd (holding l draft) candidate) = holding l "".
Proof. intros H. by rewrite handleItemAdd_rejects. Qed.

Lemma after_handleItemAdd_committed (candidate : string) :
  candidate ≠ "" → candidate ∉ l →
  after (holding l draft) (handleItemAdd (holding l draft) candidate)
    = holding (l ++ [candidate]) "".
Proof. intros H1 H2. by rewrite handleItemAdd_commits. Qed.

Lemma after_handleItemRemove (value : string) :
  after (holding l draft) (handleItemRemove (holding l draft) value)
    = holding (filter (λ v, v ≠ value) l) draft.
Proof. reflexivity. Qed.

End on_a_collection.

Lemma added_app (l1 l2 : list effect) : added (l1 ++ l2) = added l1 ++ added l2.
Proof. apply omap_app. Qed.

Lemma deleted_app (l1 l2 : list effect) : deleted (l1 ++ l2) = deleted l1 ++ deleted l2.
Proof. apply omap_app. Qed.

(** Filtering out a string that is not there changes nothing. *)
Lemma filter_absent (l : list string) (value : string) :
  value ∉ l → filter (λ v, v ≠ value) l = l.
Proof.
  induction l as [|x l IH]; [done|].
  intros Hnot. apply not_elem_of_cons in Hnot as [Hne Hnot].
  rewrite filter_cons_True by congruence. by rewrite IH.
Qed.

(** A string that is not there occurs zero times. *)
Lemma filter_equal_absent (l : list string) (value : string) :
  value ∉ l → filter (λ v, v = value) l = [].
Proof.
  induction l as [|x l IH]; [done|].
  intros Hnot. apply not_elem_of_cons in Hnot as [Hne Hnot].
  rewrite filter_cons_False by congruence. by apply IH.
Qed.

(** Filtering out a string that is there once removes that occurrence. *)
Lemma filter_present_once (l1 l2 : list string) (value : string) :
  value ∉ l1 → value ∉ l2 →
  filter (λ v, v ≠ value) (l1 ++ value :: l2) = l1 ++ l2.
Proof.
  intros H1 H2. rewrite filter_app, filter_cons_False by (intros H; by apply H).
  by rewrite !filter_absent.
Qed.

(** ** Committing a run of fresh candidates *)

Lemma session_cons (props : Props.t) (state : State.t) (c : call) (cs : list call) :
  session props state (c :: cs) =
    ((session props (after state (invoke props state c)) cs).1,
     log (invoke props state c)
       ++ (session props (after state (invoke props state c)) cs).2).
Proof. reflexivity. Qed.

Lemma session_commits (props : Props.t) (seq : list string) :
  ∀ (pre : list string) (draft : string),
    NoDup (pre ++ seq) → "" ∉ seq →
    let r := session props (holding pre draft) (CallItemAdd <$> seq) in
    State.values r.1 = Some (pre ++ seq)
    ∧ added r.2 = imap (λ i x, (x, pre ++ take (S i) seq)) seq
    ∧ deleted r.2 = [].
Proof.
  induction seq as [|c seq IH]; intros pre draft Hnd Hne.
  { cbn. by rewrite app_nil_r. }
  apply not_elem_of_cons in Hne as [Hc Hne].
  assert (c ∉ pre) as Hfresh.
  { apply NoDup_app in Hnd as (_ & Hdisj & _). intros Hin.
    apply (Hdisj c Hin). by left. }
  rewrite fmap_cons, session_cons. cbn [invoke fst snd].
  rewrite after_handleItemAdd_committed, handleItemAdd_commits by done.
  assert (NoDup ((pre ++ [c]) ++ seq)) as Hnd' by by rewrite <- app_assoc.
  destruct (IH (pre ++ [c]) "" Hnd' Hne) as (Hv & Ha & Hd).
  cbn in Hv, Ha, Hd. rewrite Hv, <- app_assoc. split; [done|].
  rewrite added_app, deleted_app, Ha, Hd. split; [|done].
  cbn. f_equal. apply imap_ext. intros i x _. cbn. by rewrite <- app_assoc.
Qed.

(** C1.  A candidate that is not empty and not yet in the collection is put
    at the end of the collection, the elements already there keeping their
    order; the draft text becomes empty; [onItemAdded] is called exactly once,
    with the candidate and the collection after the append.  Hence a run of
    distinct non-empty strings committed one after the other from an empty
    collection leaves exactly that run, in commit order, and makes one
    [onItemAdded] call per string, the i-th carrying the first i strings. *)
Theorem handleItemAdd_appends_fresh_candidate (props : Props.t) :
  (∀ (l : list string) (draft candidate : string),
     candidate ≠ "" → candidate ∉ l →
     let h := handleItemAdd (holding l draft) candidate in
     outcome h = Normal ()
     ∧ after (holding l draft) h = holding (l ++ [candidate]) ""
     ∧ added (log h) = [(candidate, l ++ [candidate])]
     ∧ deleted (log h) = [])
  ∧ (∀ (seq : list string) (draft : string),
       NoDup seq → "" ∉ seq →
       let r := session props (holding [] draft) (CallItemAdd <$> seq) in
       State.values r.1 = Some seq
       ∧ added r.2 = imap (λ i x, (x, take (S i) seq)) seq
       ∧ length (added r.2) = length seq
       ∧ deleted r.2 = []).
Proof.
  split.
  - intros l draft candidate Hnonempty Hfresh h. subst h.
    by rewrite after_handleItemAdd_committed, handleItemAdd_commits.
  - intros seq draft Hdistinct Hnonempties r.
    destruct (session_commits props seq [] draft) as (Hv & Ha & Hd); [done..|].
    subst r. cbn in Hv, Ha, Hd. rewrite Hv, Ha, Hd, length_imap. done.
Qed.

Lemma handleItemAdd_appends_fresh_candidate_witness :
  let props :=
    {| Props.values := Some []; Props.label := ""; Props.name := "n";
       Props.placeholder := ""; Props.charCodes := [13%Z; 44%Z];
       Props.deleteButton := TimesSpan; Props.extra := ∅ |} in
  ("abc2" ≠ "" ∧ ("abc2" ∉ ["abc"]) ∧ NoDup ["abc"; "abc2"] ∧ ("" ∉ ["abc"; "abc2"]))
  ∧ after (holding ["abc"] "abc2") (handleItemAdd (holding ["abc"] "abc2") "abc2")
      = holding ["abc"; "abc2"] ""
  ∧ added (log (handleItemAdd (holding ["abc"] "abc2") "abc2"))
      = [("abc2", ["abc"; "abc2"])]
  ∧ State.values (fst (session props (holding [] "abc2")
                         (CallItemAdd <$> ["abc"; "abc2"])))
      = Some ["abc"; "abc2"]
  ∧ added (snd (session props (holding [] "abc2") (CallItemAdd <$> ["abc"; "abc2"])))
      = [("abc", ["abc"]); ("abc2", ["abc"; "abc2"])].
Proof.
  cbn zeta.
  assert ("abc2" ≠ "") as H1 by done.
  assert ("abc2" ∉ ["abc"]) as H2 by compute_done.
  assert (NoDup ["abc"; "abc2"]) as H3 by compute_done.
  assert ("" ∉ ["abc"; "abc2"]) as H4 by compute_done.
  split; [done|].
  pose proof (handleItemAdd_appends_fresh_candidate
    {| Props.values := Some []; Props.label := ""; Props.name := "n";
       Props.placeholder := ""; Props.charCodes := [13%Z; 44%Z];
       Props.deleteButton := TimesSpan; Props.extra := ∅ |}) as [Hone Hrun].
  destruct (Hone ["abc"] "abc2" "abc2" H1 H2) as (_ & Hafter & Hcall & _).
  destruct (Hrun ["abc"; "abc2"] "abc2" H3 H4) as (Hvalues & Hcalls & _).
  split_and!; [exact Hafter | exact Hcall | exact Hvalues | exact Hcalls].
Defined.

(** C2.  A candidate that is the empty string, or that is already in the
    collection, leaves the collection as it was, empties the draft text and
    calls no callback; the handler returns normally. *)
Theorem handleItemAdd_rejects_empty_or_present
    (l : list string) (draft candidate : string)
    (Hreject : candidate = "" ∨ candidate ∈ l) :
  let h := handleItemAdd (holding l draft) candidate in
  outcome h = Normal ()
  ∧ after (holding l draft) h = holding l ""
  ∧ added (log h) = []
  ∧ deleted (log h) = []
  ∧ log h = [SetState {| patch_values := None; patch_value := Some "" |}].
Proof.
  intros h. subst h.
  by rewrite after_handleItemAdd_rejected, handleItemAdd_rejects.
Qed.

Lemma handleItemAdd_rejects_empty_or_present_witness :
  ("abc" = "" ∨ "abc" ∈ ["x"; "abc"])
  ∧ after (holding ["x"; "abc"] "abc") (handleItemAdd (holding ["x"; "abc"] "abc") "abc")
      = holding ["x"; "abc"] ""
  ∧ added (log (handleItemAdd (holding ["x"; "abc"] "abc") "abc")) = [].
Proof.
  assert ("abc" = "" ∨ "abc" ∈ ["x"; "abc"]) as H by (right; compute_done).
  split; [exact H|].
  pose proof (handleItemAdd_rejects_empty_or_present ["x"; "abc"] "abc" "abc" H)
    as (_ & Ha & Hc & _).
  split; [exact Ha | exact Hc].
Defined.

(** ** The collection never holds a string twice *)

Lemma handleKeypress_on_trigger (props : Props.t) (state : State.t) (e : SyntheticEvent) :
  charCode e ∈ Props.charCodes props →
  handleKeypress props state e =
    mkHandler (PreventDefault :: log (handleItemAdd state (target_value e)))
              (outcome (handleItemAdd state (target_value e))).
Proof.
  intros Hin. unfold handleKeypress, includes.
  rewrite bool_decide_eq_true_2 by done. reflexivity.
Qed.

Lemma handleKeypress_off_trigger (props : Props.t) (state : State.t) (e : SyntheticEvent) :
  charCode e ∉ Props.charCodes props →
  handleKeypress props state e = mkHandler [] (Normal ()).
Proof.
  intros Hin. unfold handleKeypress, includes.
  rewrite bool_decide_eq_false_2 by done. reflexivity.
Qed.

Lemma after_handleItemAdd_NoDup (l : list string) (draft candidate : string) :
  NoDup l →
  ∃ l', after (holding l draft) (handleItemAdd (holding l draft) candidate)
          = holding l' ""
        ∧ NoDup l'.
Proof.
  intros Hnd.
  destruct (decide (candidate = "")) as [He|He];
    [|destruct (decide (candidate ∈ l)) as [Hin|Hin]].
  - exists l. rewrite after_handleItemAdd_rejected by auto. done.
  - exists l. rewrite after_handleItemAdd_rejected by auto. done.
  - exists (l ++ [candidate]). rewrite after_handleItemAdd_committed by done.
    split; [done|]. apply NoDup_app. split_and!; [done| |apply NoDup_singleton].
    intros x Hx Hx'. apply list_elem_of_singleton in Hx'. by subst.
Qed.

Lemma invoke_duplicate_free (props : Props.t) (state : State.t) (c : call) :
  duplicate_free state → duplicate_free (after state (invoke props state c)).
Proof.
  intros (l & Hl & Hnd). destruct state as [vs draft]. cbn in Hl. subst vs.
  change {| State.values := Some l; State.value := draft |} with (holding l draft).
  destruct c as [e|e|value|value]; cbn [invoke].
  - destruct (decide (charCode e ∈ Props.charCodes props)) as [Hin|Hin].
    + rewrite handleKeypress_on_trigger by done.
      destruct (after_handleItemAdd_NoDup l draft (target_value e) Hnd)
        as (l' & Hl' & Hnd').
      exists l'. split; [|done].
      unfold after in *. cbn [log flush foldl] in *. unfold flush in Hl'.
      by rewrite Hl'.
    + rewrite handleKeypress_off_trigger by done. by exists l.
  - by exists l.
  - destruct (after_handleItemAdd_NoDup l draft value Hnd) as (l' & Hl' & Hnd').
    exists l'. by rewrite Hl'.
  - rewrite after_handleItemRemove. eexists. split; [done|].
    by apply NoDup_filter.
Qed.

(** An event on the rendered widget either changes nothing in the state or
    is one call of a method. *)
Lemma listener_is_invoke (props : Props.t) (state : State.t)
    (f : option attrval) (e : SyntheticEvent) :
  after state (listener props state f e) = state
  ∨ ∃ c, listener props state f e = invoke props state c.
Proof.
  destruct f as [[v|m]|]; [destruct v|destruct m|]; cbn; try (by left).
  - right. by exists (CallKeypress e).
  - right. by exists (CallValueChange e).
Qed.

Lemma dispatch_is_invoke (props : Props.t) (state : State.t) (ev : DomEvent) :
  after state (dispatch props state ev) = state
  ∨ ∃ c, dispatch props state ev = invoke props state c.
Proof.
  unfold dispatch. destruct (render props state) as [view|]; [|by left].
  destruct ev as [e|e|e|row]; try apply listener_is_invoke.
  destruct (valueDisplays view !! row) as [item|]; [|by left].
  right. by exists (CallItemRemove (item_value item)).
Qed.

Lemma dispatch_reachable (init state : State.t) (props : Props.t) (ev : DomEvent) :
  reachable init state → reachable init (after state (dispatch props state ev)).
Proof.
  intros Hreach. destruct (dispatch_is_invoke props state ev) as [->|[c ->]]; [done|].
  by apply reachable_call.
Qed.

(** C3.  Starting from a collection with no duplicates, [handleItemAdd] and
    [handleItemRemove] each leave a collection with no duplicates, and so
    does every state the component can reach, whatever methods are called
    with whatever arguments and props. *)
Theorem collection_stays_duplicate_free
    (seed : list string) (draft : string) (Hseed : NoDup seed) :
  (∀ candidate,
     duplicate_free (after (holding seed draft)
                       (handleItemAdd (holding seed draft) candidate)))
  ∧ (∀ value,
       duplicate_free (after (holding seed draft)
                         (handleItemRemove (holding seed draft) value)))
  ∧ (∀ state, reachable (holding seed draft) state → duplicate_free state).
Proof.
  assert (duplicate_free (holding seed draft)) as Hinit by by exists seed.
  split_and!.
  - intros candidate. apply (invoke_duplicate_free
      {| Props.values := None; Props.label := ""; Props.name := "";
         Props.placeholder := ""; Props.charCodes := [];
         Props.deleteButton := TimesSpan; Props.extra := ∅ |}
      _ (CallItemAdd candidate) Hinit).
  - intros value. rewrite after_handleItemRemove. eexists. split; [done|].
    by apply NoDup_filter.
  - intros state Hreach. induction Hreach as [|state props c _ IH]; [done|].
    by apply invoke_duplicate_free.
Qed.

Lemma collection_stays_duplicate_free_witness :
  NoDup ["1"; "2"]
  ∧ duplicate_free (after (holding ["1"; "2"] "") (handleItemAdd (holding ["1"; "2"] "") "2"))
  ∧ duplicate_free (after (holding ["1"; "2"] "") (handleItemRemove (holding ["1"; "2"] "") "1"))
  ∧ duplicate_free (holding ["1"; "2"; "3"] "").
Proof.
  assert (NoDup ["1"; "2"]) as H by compute_done.
  split; [exact H|].
  pose proof (collection_stays_duplicate_free ["1"; "2"] "" H) as (Ha & Hr & Hreach).
  split_and!; [exact (Ha "2") | exact (Hr "1") |].
  apply Hreach.
  exact (reachable_call (holding ["1"; "2"] "") (holding ["1"; "2"] "")
           {| Props.values := Some ["1"; "2"]; Props.label := ""; Props.name := "n";
              Props.placeholder := ""; Props.charCodes := [13%Z; 44%Z];
              Props.deleteButton := TimesSpan; Props.extra := ∅ |}
           (CallKeypress {| charCode := 13; target_value := "3" |})
           (reachable_init _)).
Defined.

(** ** Removal *)

(** C4.  Removing a value that is in a duplicate-free collection takes out
    its one occurrence: the collection is one element shorter, the other
    elements keep their order, and [onItemDeleted] is called exactly once,
    with the removed value and the collection after the removal. *)
Theorem handleItemRemove_removes_present_value
    (l : list string) (draft value : string)
    (Hdistinct : NoDup l) (Hpresent : value ∈ l) :
  let h := handleItemRemove (holding l draft) value in
  outcome h = Normal ()
  ∧ ∃ l1 l2,
      l = l1 ++ value :: l2
      ∧ after (holding l draft) h = holding (l1 ++ l2) draft
      ∧ S (length (l1 ++ l2)) = length l
      ∧ (value ∉ l1 ++ l2)
      ∧ deleted (log h) = [(value, l1 ++ l2)]
      ∧ added (log h) = [].
Proof.
  intros h. split; [done|].
  destruct (list_elem_of_split l value Hpresent) as (l1 & l2 & ->).
  apply NoDup_app in Hdistinct as (_ & Hdisj & Hnd2).
  apply NoDup_cons in Hnd2 as [Hnot2 _].
  assert (value ∉ l1) as Hnot1.
  { intros Hin. apply (Hdisj value Hin). by left. }
  exists l1, l2. subst h.
  rewrite after_handleItemRemove, handleItemRemove_logs.
  rewrite filter_present_once by done. cbn.
  split_and!; try done.
  - rewrite !length_app. cbn. lia.
  - rewrite elem_of_app. tauto.
Qed.

Lemma handleItemRemove_removes_present_value_witness :
  (NoDup ["1"; "2"] ∧ "1" ∈ ["1"; "2"])
  ∧ ∃ l1 l2,
      ["1"; "2"] = l1 ++ "1" :: l2
      ∧ after (holding ["1"; "2"] "") (handleItemRemove (holding ["1"; "2"] "") "1")
          = holding (l1 ++ l2) ""
      ∧ deleted (log (handleItemRemove (holding ["1"; "2"] "") "1")) = [("1", l1 ++ l2)].
Proof.
  assert (NoDup ["1"; "2"]) as H1 by compute_done.
  assert ("1" ∈ ["1"; "2"]) as H2 by compute_done.
  split; [done|].
  pose proof (handleItemRemove_removes_present_value ["1"; "2"] "" "1" H1 H2)
    as (_ & l1 & l2 & Hl & Ha & _ & _ & Hd & _).
  exists l1, l2. split_and!; [exact Hl | exact Ha | exact Hd].
Defined.

(** C5, as the specification states it, fails: removing "2" from the
    collection ["1"] leaves the collection as it was, yet [onItemDeleted] is
    called. *)
Lemma removing_absent_value_calls_onItemDeleted :
  ("2" ∉ ["1"])
  ∧ after (holding ["1"] "") (handleItemRemove (holding ["1"] "") "2") = holding ["1"] ""
  ∧ deleted (log (handleItemRemove (holding ["1"] "") "2")) = [("2", ["1"])]
  ∧ deleted (log (handleItemRemove (holding ["1"] "") "2")) ≠ [].
Proof. split_and!; [compute_done | done | done | done]. Qed.

(** C5, amended.  Removing a value that is not in the collection leaves the
    state as it was, and [onItemDeleted] is called exactly once, with that
    value and the unchanged collection. *)
Theorem handleItemRemove_absent_value
    (l : list string) (draft value : string) (Habsent : value ∉ l) :
  let h := handleItemRemove (holding l draft) value in
  outcome h = Normal ()
  ∧ after (holding l draft) h = holding l draft
  ∧ deleted (log h) = [(value, l)]
  ∧ added (log h) = [].
Proof.
  intros h. subst h.
  rewrite after_handleItemRemove, handleItemRemove_logs.
  by rewrite filter_absent.
Qed.

Lemma handleItemRemove_absent_value_witness :
  ("3" ∉ ["1"; "2"])
  ∧ after (holding ["1"; "2"] "x") (handleItemRemove (holding ["1"; "2"] "x") "3")
      = holding ["1"; "2"] "x"
  ∧ deleted (log (handleItemRemove (holding ["1"; "2"] "x") "3")) = [("3", ["1"; "2"])].
Proof.
  assert ("3" ∉ ["1"; "2"]) as H by compute_done.
  split; [exact H|].
  pose proof (handleItemRemove_absent_value ["1"; "2"] "x" "3" H) as (_ & Ha & Hd & _).
  split; [exact Ha | exact Hd].
Defined.

(** ** Committing twice, and the draft text *)

(** C6.  Two calls of [handleItemAdd] in a row with the same candidate, not
    empty and not in the collection at first, add it once and call
    [onItemAdded] once: the second call is rejected and calls nothing. *)
Theorem handleItemAdd_twice_adds_once
    (props : Props.t) (l : list string) (draft candidate : string)
    (Hnonempty : candidate ≠ "") (Hfresh : candidate ∉ l) :
  let first := handleItemAdd (holding l draft) candidate in
  let state1 := after (holding l draft) first in
  let second := handleItemAdd state1 candidate in
  let r := session props (holding l draft)
             [CallItemAdd candidate; CallItemAdd candidate] in
  r.1 = after state1 second
  ∧ r.2 = log first ++ log second
  ∧ r.1 = holding (l ++ [candidate]) ""
  ∧ length (filter (λ v, v = candidate) (l ++ [candidate])) = 1
  ∧ added r.2 = [(candidate, l ++ [candidate])]
  ∧ added (log second) = []
  ∧ outcome second = Normal ().
Proof.
  intros first state1 second r.
  assert (candidate ∈ l ++ [candidate]) as Hnow.
  { apply elem_of_app. right. by left. }
  assert (state1 = holding (l ++ [candidate]) "") as Hs1.
  { subst state1 first. by rewrite after_handleItemAdd_committed. }
  assert (r.1 = after state1 second ∧ r.2 = log first ++ log second) as [H1 H2].
  { subst r. cbn [session invoke fst snd]. by rewrite app_nil_r. }
  rewrite H2, H1. subst second. rewrite Hs1.
  rewrite after_handleItemAdd_rejected, handleItemAdd_rejects by auto.
  subst first. rewrite handleItemAdd_commits by done.
  split_and!; try done.
  rewrite filter_app, filter_equal_absent by done.
  by rewrite filter_cons_True.
Qed.

Lemma handleItemAdd_twice_adds_once_witness :
  ("abc" ≠ "" ∧ ("abc" ∉ @nil string))
  ∧ fst (session
      {| Props.values := Some []; Props.label := ""; Props.name := "n";
         Props.placeholder := ""; Props.charCodes := [13%Z; 44%Z];
         Props.deleteButton := TimesSpan; Props.extra := ∅ |}
      (holding [] "abc") [CallItemAdd "abc"; CallItemAdd "abc"])
    = holding ["abc"] ""
  ∧ added (snd (session
      {| Props.values := Some []; Props.label := ""; Props.name := "n";
         Props.placeholder := ""; Props.charCodes := [13%Z; 44%Z];
         Props.deleteButton := TimesSpan; Props.extra := ∅ |}
      (holding [] "abc") [CallItemAdd "abc"; CallItemAdd "abc"]))
    = [("abc", ["abc"])].
Proof.
  assert ("abc" ≠ "") as H1 by done.
  assert ("abc" ∉ @nil string) as H2 by compute_done.
  split; [done|].
  pose proof (handleItemAdd_twice_adds_once
    {| Props.values := Some []; Props.label := ""; Props.name := "n";
       Props.placeholder := ""; Props.charCodes := [13%Z; 44%Z];
       Props.deleteButton := TimesSpan; Props.extra := ∅ |}
    [] "abc" "abc" H1 H2) as (_ & _ & Hs & _ & Ha & _).
  split; [exact Hs | exact Ha].
Defined.

(** C7.  After any call of [handleItemAdd], whatever the candidate and the
    collection, accepted or rejected, the draft text is the empty string. *)
Theorem handleItemAdd_clears_draft (l : list string) (draft candidate : string) :
  let h := handleItemAdd (holding l draft) candidate in
  outcome h = Normal ()
  ∧ State.value (after (holding l draft) h) = "".
Proof.
  intros h. subst h.
  destruct (decide (candidate = "")) as [He|He];
    [|destruct (decide (candidate ∈ l)) as [Hin|Hin]].
  - by rewrite after_handleItemAdd_rejected, handleItemAdd_rejects by auto.
  - by rewrite after_handleItemAdd_rejected, handleItemAdd_rejects by auto.
  - by rewrite after_handleItemAdd_committed, handleItemAdd_commits by auto.
Qed.

(** ** Key presses *)

(** C8.  A key press commits the text of the event's target exactly when the
    event's character code is among [charCodes] (13 and 44 unless the caller
    says otherwise): then [preventDefault] is called first and
    [handleItemAdd] runs on the target's text; otherwise nothing is done and
    the state stays as it was. *)
Theorem handleKeypress_commits_exactly_on_charCodes
    (props : Props.t) (state : State.t) (e : SyntheticEvent) :
  let h := handleKeypress props state e in
  let commit := handleItemAdd state (target_value e) in
  (∀ raw, Props.charCodes (resolveDefaultProps raw)
            = default [13%Z; 44%Z] (Raw.charCodes raw))
  ∧ (PreventDefault ∈ log h ↔ charCode e ∈ Props.charCodes props)
  ∧ ((charCode e ∈ Props.charCodes props
      ∧ log h = PreventDefault :: log commit
      ∧ outcome h = outcome commit
      ∧ after state h = after state commit)
     ∨ ((charCode e ∉ Props.charCodes props)
        ∧ log h = []
        ∧ outcome h = Normal ()
        ∧ after state h = state)).
Proof.
  intros h commit. split; [done|]. subst h commit.
  destruct (decide (charCode e ∈ Props.charCodes props)) as [Hin|Hin].
  - rewrite handleKeypress_on_trigger by done. cbn [log outcome]. split.
    + split; [done|]. intros _. by left.
    + left. done.
  - rewrite handleKeypress_off_trigger by done. cbn [log outcome]. split.
    + split; [|done]. intros H. by apply elem_of_nil in H.
    + right. done.
Qed.

(** ** Losing focus *)

Lemma inputProps_onBlur (props : Props.t) (state : State.t) :
  inputProps props state !! "onBlur"
    = Forwarded <$> (forwardedProps props !! "onBlur").
Proof.
  unfold inputProps. rewrite lookup_union, lookup_fmap.
  rewrite !lookup_insert_ne, lookup_empty by done.
  by destruct (forwardedProps props !! "onBlur").
Qed.

(** Whatever the props, an event of losing focus runs no method of the
    component: the state stays as it was and neither callback is called. *)
Lemma dispatch_Blur_commits_nothing (props : Props.t) (state : State.t)
    (e : SyntheticEvent) :
  let h := dispatch props state (Blur e) in
  after state h = state ∧ added (log h) = [] ∧ deleted (log h) = [].
Proof.
  cbn zeta. unfold dispatch. destruct (render props state) as [view|] eqn:Hr; [|done].
  assert (input_props view = inputProps props state) as ->.
  { unfold render in Hr. destruct (displayed props state); [|done].
    by injection Hr as <-. }
  rewrite inputProps_onBlur.
  destruct (forwardedProps props !! "onBlur") as [[]|]; done.
Qed.

(** C9, evaluated on the code.  With [shouldAddOnBlur] passed as [true] and
    no seed, typing "test" and leaving the field commits nothing: the
    collection stays empty, the draft text stays "test" and [onItemAdded] is
    not called.  The component reads no [shouldAddOnBlur] prop and gives
    [<input>] no [onBlur] of its own. *)
Theorem blur_with_shouldAddOnBlur_commits_nothing :
  let props := resolveDefaultProps
    {| Raw.values := None; Raw.label := None; Raw.name := "test-input";
       Raw.placeholder := None; Raw.charCodes := None;
       Raw.deleteButton := None;
       Raw.extra := {[ "shouldAddOnBlur" := PBool true ]} |} in
  let r := interaction props (constructor props)
    [Change {| charCode := 0; target_value := "test" |};
     Blur {| charCode := 0; target_value := "test" |}] in
  r.1 = holding [] "test"
  ∧ added r.2 = []
  ∧ r.2 = [SetState {| patch_values := None; patch_value := Some "test" |}].
Proof. vm_compute. done. Qed.

(** ** What is on screen *)

Lemma session_removes (props : Props.t) (rem : list string) :
  ∀ (l : list string) (draft : string),
    (session props (holding l draft) (CallItemRemove <$> rem)).1
      = holding (filter (λ v, v ∉ rem) l) draft.
Proof.
  induction rem as [|x rem IH]; intros l draft.
  - cbn. f_equal. induction l as [|y l IHl]; [done|].
    rewrite filter_cons_True by apply not_elem_of_nil. by f_equal.
  - rewrite fmap_cons, session_cons. cbn [invoke fst].
    rewrite after_handleItemRemove, IH, list_filter_filter. f_equal.
    apply list_filter_iff. intros v. rewrite not_elem_of_cons. tauto.
Qed.

Lemma filter_not_in_itself (l : list string) : filter (λ v, v ∉ l) l = [].
Proof.
  destruct (filter (λ v, v ∉ l) l) as [|x k] eqn:Hf; [done|].
  assert (x ∈ filter (λ v, v ∉ l) l) as Hx by (rewrite Hf; by left).
  apply list_elem_of_filter in Hx as [Hnot Hin]. done.
Qed.

Lemma rows_fallback (props : Props.t) (state : State.t) :
  State.values state = None ∨ State.values state = Some [] →
  displayed props state = Props.values props
  ∧ rows props state = match Props.values props with
                       | Some vs => Normal vs
                       | None => Throw TypeError
                       end.
Proof.
  intros Hempty.
  assert (displayed props state = Props.values props) as Hd.
  { unfold displayed. by destruct Hempty as [-> | ->]. }
  split; [done|]. unfold rows, render. rewrite Hd.
  destruct (Props.values props) as [vs|]; [|done]. cbn. f_equal.
  rewrite <- list_fmap_compose. apply list_fmap_id.
Qed.

(** C10.  What is shown is not always the collection the component holds:
    when [this.state.values] is null or empty, the rows are those of the
    [values] prop.  So once every value of a non-empty seed has been removed,
    the collection is empty and the rows are the seed again. *)
Theorem render_falls_back_to_props_values (props : Props.t) :
  (∀ state,
     State.values state = None ∨ State.values state = Some [] →
     displayed props state = Props.values props
     ∧ rows props state = match Props.values props with
                          | Some vs => Normal vs
                          | None => Throw TypeError
                          end)
  ∧ (∀ seed,
       Props.values props = Some seed → seed ≠ [] →
       let r := session props (constructor props) (CallItemRemove <$> seed) in
       State.values r.1 = Some []
       ∧ rows props r.1 = Normal seed
       ∧ rows props r.1 ≠ Normal []).
Proof.
  split; [apply rows_fallback|].
  intros seed Hseed Hne r.
  assert (r.1 = holding [] "") as ->.
  { subst r. unfold constructor. rewrite Hseed.
    change {| State.values := Some seed; State.value := "" |} with (holding seed "").
    by rewrite session_removes, filter_not_in_itself. }
  destruct (rows_fallback props (holding [] "")) as [_ Hrows]; [by right|].
  rewrite Hrows, Hseed. split_and!; [done..|]. congruence.
Qed.

Lemma render_falls_back_to_props_values_witness :
  let props :=
    {| Props.values := Some ["1"; "2"]; Props.label := ""; Props.name := "n";
       Props.placeholder := ""; Props.charCodes := [13%Z; 44%Z];
       Props.deleteButton := TimesSpan; Props.extra := ∅ |} in
  (Props.values props = Some ["1"; "2"] ∧ ["1"; "2"] ≠ @nil string)
  ∧ State.values (fst (session props (constructor props)
                         (CallItemRemove <$> ["1"; "2"]))) = Some []
  ∧ rows props (fst (session props (constructor props)
                       (CallItemRemove <$> ["1"; "2"]))) = Normal ["1"; "2"]
  ∧ displayed props (holding [] "x") = Some ["1"; "2"].
Proof.
  cbn zeta.
  set (props :=
    {| Props.values := Some ["1"; "2"]; Props.label := ""; Props.name := "n";
       Props.placeholder := ""; Props.charCodes := [13%Z; 44%Z];
       Props.deleteButton := TimesSpan; Props.extra := ∅ |}).
  assert (Props.values props = Some ["1"; "2"]) as H1 by reflexivity.
  assert (["1"; "2"] ≠ @nil string) as H2 by discriminate.
  assert (State.values (holding [] "x") = None
          ∨ State.values (holding [] "x") = Some []) as H3 by (right; reflexivity).
  split; [done|].
  pose proof (render_falls_back_to_props_values props) as [Hfall Hseed].
  destruct (Hseed ["1"; "2"] H1 H2) as (Hv & Hr & _).
  destruct (Hfall (holding [] "x") H3) as [Hd _].
  split_and!; [exact Hv | exact Hr | exact Hd].
Defined.

(** ** The scenarios of the specification, run on the code *)

Example scenario_B :
  let props := resolveDefaultProps
    {| Raw.values := None; Raw.label := None; Raw.name := "test-input";
       Raw.placeholder := None; Raw.charCodes := Some [32%Z];
       Raw.deleteButton := None; Raw.extra := ∅ |} in
  let r := interaction props (constructor props)
    [Change {| charCode := 0; target_value := "abc" |};
     KeyPress {| charCode := 13; target_value := "abc" |}] in
  r.1 = holding [] "abc" ∧ added r.2 = [].
Proof. vm_compute. done. Qed.

Example scenario_C :
  let props := resolveDefaultProps
    {| Raw.values := Some (Some ["1"; "2"]); Raw.label := None;
       Raw.name := "test-input"; Raw.placeholder := None;
       Raw.charCodes := None; Raw.deleteButton := None; Raw.extra := ∅ |} in
  let r := interaction props (constructor props) [RemoveClick 0] in
  r.1 = holding ["2"] "" ∧ deleted r.2 = [("1", ["2"])].
Proof. vm_compute. done. Qed.

(** Removing both seeds brings both rows back; a third click then asks to
    remove "1" from an empty collection, and [onItemDeleted] is called. *)
Example seed_rows_come_back :
  let props := resolveDefaultProps
    {| Raw.values := Some (Some ["1"; "2"]); Raw.label := None;
       Raw.name := "test-input"; Raw.placeholder := None;
       Raw.charCodes := None; Raw.deleteButton := None; Raw.extra := ∅ |} in
  let r := interaction props (constructor props) [RemoveClick 0; RemoveClick 0] in
  let r' := interaction props r.1 [RemoveClick 0] in
  r.1 = holding [] ""
  ∧ rows props r.1 = Normal ["1"; "2"]
  ∧ r'.1 = holding [] ""
  ∧ deleted r'.2 = [("1", [])].
Proof. vm_compute. done. Qed.

(** * Further properties of the component *)

(** ** The first render *)

Lemma displayed_constructor (props : Props.t) :
  displayed props (constructor props) = Props.values props.
Proof.
  unfold displayed, constructor; cbn.
  destruct (Props.values props) as [[|v vs]|]; done.
Qed.

(** X1.  Right after construction the rows are the [values] prop, in order,
    be it empty or not, and the input is empty; with [values] null the first
    render throws. *)
Theorem first_render_shows_values_prop (props : Props.t) :
  rows props (constructor props)
    = match Props.values props with
      | Some seed => Normal seed
      | None => Throw TypeError
      end
  ∧ State.value (constructor props) = "".
Proof.
  split; [|done].
  unfold rows, render. rewrite displayed_constructor.
  destruct (Props.values props) as [seed|]; [|done]. cbn. f_equal.
  rewrite <- list_fmap_compose. apply list_fmap_id.
Qed.

(** ** Typing *)

(** X2.  Changes of the input only move the draft text: after any run of
    [handleValueChange] calls the draft is the text of the last one (the old
    draft when there was none), the collection is untouched, null or not, and
    no callback was called. *)
Theorem typing_only_moves_draft (props : Props.t) (es : list SyntheticEvent) :
  ∀ state : State.t,
    let r := session props state (CallValueChange <$> es) in
    State.values r.1 = State.values state
    ∧ State.value r.1 = default (State.value state) (target_value <$> last es)
    ∧ added r.2 = []
    ∧ deleted r.2 = [].
Proof.
  induction es as [|e es IH]; intros state; [done|].
  rewrite fmap_cons, session_cons. cbn [invoke fst snd].
  destruct (IH (after state (handleValueChange e))) as (Hv & Hd & Ha & Hdel).
  cbn zeta in *. rewrite Hv, Hd, added_app, deleted_app, Ha, Hdel.
  split_and!; try done.
  destruct es as [|e' es]; [done|]. rewrite last_cons_cons.
  destruct (last (e' :: es)) as [e''|] eqn:Hlast; [done|].
  by apply last_None in Hlast.
Qed.

(** ** What the caller is told *)

Lemma notified_app (l1 l2 : list effect) :
  notified (l1 ++ l2) = notified l1 ++ notified l2.
Proof. apply omap_app. Qed.

Lemma invoke_mirrors (props : Props.t) (l : list string) (draft : string) (c : call) :
  ∃ draft',
    after (holding l draft) (invoke props (holding l draft) c)
      = holding (default l (last (notified (log (invoke props (holding l draft) c)))))
                draft'.
Proof.
  destruct c as [e|e|value|value]; cbn [invoke].
  - destruct (decide (charCode e ∈ Props.charCodes props)) as [Hin|Hin].
    + rewrite handleKeypress_on_trigger by done.
      destruct (decide (target_value e = "")) as [He|He];
        [|destruct (decide (target_value e ∈ l)) as [Hl|Hl]].
      * rewrite handleItemAdd_rejects by auto. by eexists.
      * rewrite handleItemAdd_rejects by auto. by eexists.
      * rewrite handleItemAdd_commits by auto. by eexists.
    + rewrite handleKeypress_off_trigger by done. by eexists.
  - by eexists.
  - destruct (decide (value = "")) as [He|He];
      [|destruct (decide (value ∈ l)) as [Hl|Hl]].
    + rewrite handleItemAdd_rejects by auto. by eexists.
    + rewrite handleItemAdd_rejects by auto. by eexists.
    + rewrite handleItemAdd_commits by auto. by eexists.
  - by eexists.
Qed.

(** X3.  The callbacks keep the caller in step with the component: after any
    run of method calls, the collection held is the one carried by the last
    callback call of the run, and the starting collection when no callback
    was called. *)
Theorem last_callback_carries_the_collection
    (props : Props.t) (cs : list call) :
  ∀ (l : list string) (draft : string),
    let r := session props (holding l draft) cs in
    State.values r.1 = Some (default l (last (notified r.2))).
Proof.
  induction cs as [|c cs IH]; intros l draft; [done|].
  rewrite session_cons. cbn [fst snd].
  destruct (invoke_mirrors props l draft c) as (draft' & ->).
  specialize (IH (default l (last (notified (log (invoke props (holding l draft) c)))))
                 draft').
  cbn zeta in IH. rewrite IH, notified_app. f_equal.
  rewrite last_app.
  by destruct (last (notified (session props _ cs).2)).
Qed.

(** ** Removal on any collection *)

Lemma length_filter_split (l : list string) (value : string) :
  length (filter (λ v, v ≠ value) l) + length (filter (λ v, v = value) l) = length l.
Proof.
  induction l as [|x l IH]; [done|].
  destruct (decide (x = value)) as [Hx|Hx].
  - rewrite (filter_cons_False (λ v, v ≠ value)) by (intros H; by apply H).
    rewrite (filter_cons_True (λ v, v = value)) by done. cbn. lia.
  - rewrite (filter_cons_True (λ v, v ≠ value)) by done.
    rewrite (filter_cons_False (λ v, v = value)) by done. cbn. lia.
Qed.

(** X4.  [handleItemRemove] takes out every occurrence of the value, not only
    the first: whatever the collection, repeated strings or not, the value is
    gone afterwards, the collection is shorter by the number of its
    occurrences, the other strings stay, in their order, and the draft text
    is kept.  A second removal of the same value changes nothing more. *)
Theorem handleItemRemove_takes_out_every_occurrence
    (l : list string) (draft value : string) :
  ∃ l',
    after (holding l draft) (handleItemRemove (holding l draft) value)
      = holding l' draft
    ∧ (value ∉ l')
    ∧ sublist l' l
    ∧ (∀ x, x ≠ value → x ∈ l → x ∈ l')
    ∧ length l' + length (filter (λ v, v = value) l) = length l
    ∧ deleted (log (handleItemRemove (holding l draft) value)) = [(value, l')]
    ∧ after (holding l' draft) (handleItemRemove (holding l' draft) value)
        = holding l' draft.
Proof.
  exists (filter (λ v, v ≠ value) l).
  rewrite !after_handleItemRemove, handleItemRemove_logs.
  assert (value ∉ filter (λ v, v ≠ value) l) as Hgone.
  { intros Hin. apply list_elem_of_filter in Hin as [Hne _]. by apply Hne. }
  split_and!; try done.
  - apply sublist_filter.
  - intros x Hx Hin. by apply list_elem_of_filter.
  - apply length_filter_split.
  - by rewrite (filter_absent _ value Hgone).
Qed.

(** ** Adding and removing, one after the other *)

(** X5.  Removing a value just committed undoes the commit: from a
    collection that lacks a non-empty candidate, [handleItemAdd] then
    [handleItemRemove] of it give back the collection as it was, with an
    empty draft, and the caller saw one call of each callback. *)
Theorem add_then_remove_restores_collection
    (props : Props.t) (l : list string) (draft candidate : string)
    (Hnonempty : candidate ≠ "") (Hfresh : candidate ∉ l) :
  let r := session props (holding l draft)
             [CallItemAdd candidate; CallItemRemove candidate] in
  r.1 = holding l ""
  ∧ added r.2 = [(candidate, l ++ [candidate])]
  ∧ deleted r.2 = [(candidate, l)].
Proof.
  intros r. subst r. rewrite !session_cons. cbn [invoke session fst snd].
  rewrite after_handleItemAdd_committed, handleItemAdd_commits by done.
  rewrite after_handleItemRemove, handleItemRemove_logs.
  rewrite (filter_present_once l [] candidate Hfresh) by apply not_elem_of_nil.
  by rewrite app_nil_r.
Qed.

Lemma add_then_remove_restores_collection_witness :
  let props :=
    {| Props.values := Some ["a"; "b"]; Props.label := ""; Props.name := "n";
       Props.placeholder := ""; Props.charCodes := [13%Z; 44%Z];
       Props.deleteButton := TimesSpan; Props.extra := ∅ |} in
  ("c" ≠ "" ∧ ("c" ∉ ["a"; "b"]))
  ∧ fst (session props (holding ["a"; "b"] "c") [CallItemAdd "c"; CallItemRemove "c"])
      = holding ["a"; "b"] "".
Proof.
  cbn zeta.
  assert ("c" ≠ "") as H1 by done.
  assert ("c" ∉ ["a"; "b"]) as H2 by compute_done.
  split; [done|].
  exact (proj1 (add_then_remove_restores_collection
    {| Props.values := Some ["a"; "b"]; Props.label := ""; Props.name := "n";
       Props.placeholder := ""; Props.charCodes := [13%Z; 44%Z];
       Props.deleteButton := TimesSpan; Props.extra := ∅ |}
    ["a"; "b"] "c" "c" H1 H2)).
Defined.

(** X6.  Removing a value and committing it again does not give back the
    collection: in a collection without repeats, the non-empty value moves to
    the end, the others keeping their order. *)
Theorem remove_then_add_moves_value_last
    (props : Props.t) (l1 l2 : list string) (draft value : string)
    (Hnonempty : value ≠ "") (Hdistinct : NoDup (l1 ++ value :: l2)) :
  let r := session props (holding (l1 ++ value :: l2) draft)
             [CallItemRemove value; CallItemAdd value] in
  r.1 = holding (l1 ++ l2 ++ [value]) ""
  ∧ deleted r.2 = [(value, l1 ++ l2)]
  ∧ added r.2 = [(value, l1 ++ l2 ++ [value])].
Proof.
  intros r. subst r.
  apply NoDup_app in Hdistinct as (_ & Hdisj & Hnd2).
  apply NoDup_cons in Hnd2 as [Hnot2 _].
  assert (value ∉ l1) as Hnot1.
  { intros Hin. apply (Hdisj value Hin). by left. }
  assert (value ∉ l1 ++ l2) as Hnot by (rewrite elem_of_app; tauto).
  rewrite !session_cons. cbn [invoke session fst snd].
  rewrite after_handleItemRemove, handleItemRemove_logs.
  rewrite filter_present_once by done.
  rewrite after_handleItemAdd_committed, handleItemAdd_commits by done.
  by rewrite <- !app_assoc.
Qed.

Lemma remove_then_add_moves_value_last_witness :
  let props :=
    {| Props.values := Some ["a"; "b"; "c"]; Props.label := ""; Props.name := "n";
       Props.placeholder := ""; Props.charCodes := [13%Z; 44%Z];
       Props.deleteButton := TimesSpan; Props.extra := ∅ |} in
  ("b" ≠ "" ∧ NoDup (["a"] ++ "b" :: ["c"]))
  ∧ fst (session props (holding (["a"] ++ "b" :: ["c"]) "")
           [CallItemRemove "b"; CallItemAdd "b"])
      = holding (["a"] ++ ["c"] ++ ["b"]) "".
Proof.
  cbn zeta.
  assert ("b" ≠ "") as H1 by done.
  assert (NoDup (["a"] ++ "b" :: ["c"])) as H2 by compute_done.
  split; [done|].
  exact (proj1 (remove_then_add_moves_value_last
    {| Props.values := Some ["a"; "b"; "c"]; Props.label := ""; Props.name := "n";
       Props.placeholder := ""; Props.charCodes := [13%Z; 44%Z];
       Props.deleteButton := TimesSpan; Props.extra := ∅ |}
    ["a"] ["c"] "" "b" H1 H2)).
Defined.

(** ** What gets into the collection *)

Lemma invoke_origin
    (props : Props.t) (l : list string) (draft : string) (c : call) :
  ∃ l' draft',
    after (holding l draft) (invoke props (holding l draft) c) = holding l' draft'
    ∧ ∀ x, x ∈ l' →
        x ∈ l
        ∨ x ≠ "" ∧ (c = CallItemAdd x
                    ∨ ∃ e, c = CallKeypress e ∧ target_value e = x
                           ∧ charCode e ∈ Props.charCodes props).
Proof.
  assert (∀ candidate,
    ∃ l', after (holding l draft) (handleItemAdd (holding l draft) candidate)
            = holding l' ""
          ∧ ∀ x, x ∈ l' → x ∈ l ∨ x ≠ "" ∧ candidate = x) as Hadd.
  { intros candidate.
    destruct (decide (candidate = "")) as [He|He];
      [|destruct (decide (candidate ∈ l)) as [Hin|Hin]].
    - exists l. rewrite after_handleItemAdd_rejected by auto. auto.
    - exists l. rewrite after_handleItemAdd_rejected by auto. auto.
    - exists (l ++ [candidate]). rewrite after_handleItemAdd_committed by done.
      split; [done|]. intros x.
      rewrite elem_of_app, list_elem_of_singleton. intros [?| ->]; auto. }
  destruct c as [e|e|value|value]; cbn [invoke].
  - destruct (decide (charCode e ∈ Props.charCodes props)) as [Hin|Hin].
    + rewrite handleKeypress_on_trigger by done.
      destruct (Hadd (target_value e)) as (l' & Hl' & Hfrom).
      exists l', "". split; [exact Hl'|].
      intros x Hx. destruct (Hfrom x Hx) as [?|[? ?]]; [by left|].
      right. split; [done|]. right. by exists e.
    + rewrite handleKeypress_off_trigger by done. exists l, draft. auto.
  - exists l, (target_value e). auto.
  - destruct (Hadd value) as (l' & Hl' & Hfrom).
    exists l', "". split; [done|].
    intros x Hx. destruct (Hfrom x Hx) as [?|[? <-]]; auto.
  - exists (filter (λ v, v ≠ value) l), draft.
    rewrite after_handleItemRemove. split; [done|].
    intros x Hx. left. by apply list_elem_of_filter in Hx as [_ Hx].
Qed.

(** X7.  The empty string never gets into the collection: when the starting
    collection has none, no state the component can reach holds one,
    whatever methods are called with whatever arguments and props. *)
Theorem empty_string_never_enters
    (seed : list string) (draft : string) (state : State.t)
    (Hseed : "" ∉ seed) (Hreach : reachable (holding seed draft) state) :
  ∃ l, State.values state = Some l ∧ ("" ∉ l).
Proof.
  induction Hreach as [|state props c _ (l & Hl & Hnot)]; [by exists seed|].
  destruct state as [vs d]. cbn in Hl. subst vs.
  destruct (invoke_origin props l d c) as (l' & d' & Ha & Hfrom).
  exists l'. unfold holding in Ha. rewrite Ha. split; [done|].
  intros Hin. destruct (Hfrom "" Hin) as [?|[? _]]; done.
Qed.

Lemma empty_string_never_enters_witness :
  ("" ∉ ["1"])
  ∧ ∃ l, State.values (holding ["1"] "") = Some l ∧ ("" ∉ l).
Proof.
  assert ("" ∉ ["1"]) as H by compute_done.
  split; [exact H|].
  apply (empty_string_never_enters ["1"] "" (holding ["1"] "") H).
  exact (reachable_call (holding ["1"] "") (holding ["1"] "")
           {| Props.values := Some ["1"]; Props.label := ""; Props.name := "n";
              Props.placeholder := ""; Props.charCodes := [13%Z; 44%Z];
              Props.deleteButton := TimesSpan; Props.extra := ∅ |}
           (CallKeypress {| charCode := 13; target_value := "" |})
           (reachable_init _)).
Defined.

(** X8.  Nothing gets into the collection but what a call was asked to
    commit: every string held after a method call was held before it, or is
    the non-empty argument of that [handleItemAdd], or the non-empty target
    text of that key press, whose code is then one of [charCodes]. *)
Theorem collection_grows_only_by_candidates
    (props : Props.t) (l : list string) (draft : string) (c : call) :
  ∃ l' draft',
    after (holding l draft) (invoke props (holding l draft) c) = holding l' draft'
    ∧ ∀ x, x ∈ l' →
        x ∈ l
        ∨ x ≠ "" ∧ (c = CallItemAdd x
                    ∨ ∃ e, c = CallKeypress e ∧ target_value e = x
                           ∧ charCode e ∈ Props.charCodes props).
Proof. apply invoke_origin. Qed.

(** ** A null collection *)

Lemma invoke_on_null (props : Props.t) (draft : string) (c : call) :
  let state := {| State.values := None; State.value := draft |} in
  State.values (after state (invoke props state c)) = None
  ∧ added (log (invoke props state c)) = []
  ∧ deleted (log (invoke props state c)) = [].
Proof.
  destruct c as [e|e|value|value]; cbn [invoke]; cbn zeta; try done.
  destruct (decide (charCode e ∈ Props.charCodes props)) as [Hin|Hin].
  - by rewrite handleKeypress_on_trigger.
  - by rewrite handleKeypress_off_trigger.
Qed.

(** X9.  A component built with [values] null never gets a collection: in
    every state it can reach the collection is still null, so every
    [handleItemAdd], [handleItemRemove] and key press on a code of
    [charCodes] throws a [TypeError], and no callback is ever called. *)
Theorem null_collection_stays_null
    (draft : string) (state : State.t)
    (Hreach : reachable {| State.values := None; State.value := draft |} state) :
  State.values state = None
  ∧ ∀ props c,
      added (log (invoke props state c)) = []
      ∧ deleted (log (invoke props state c)) = []
      ∧ (∀ value, c = CallItemAdd value ∨ c = CallItemRemove value →
           invoke props state c = mkHandler [] (Throw TypeError))
      ∧ (∀ e, c = CallKeypress e → charCode e ∈ Props.charCodes props →
           invoke props state c = mkHandler [PreventDefault] (Throw TypeError)).
Proof.
  assert (State.values state = None) as Hnull.
  { induction Hreach as [|state props c _ IH]; [done|].
    destruct state as [vs d]. cbn in IH. subst vs.
    apply (invoke_on_null props d c). }
  split; [done|]. intros props c.
  destruct state as [vs d]. cbn in Hnull. subst vs.
  destruct (invoke_on_null props d c) as (_ & Ha & Hd).
  split_and!; [exact Ha | exact Hd | |].
  - intros value [-> | ->]; reflexivity.
  - intros e -> Hin. cbn [invoke]. by rewrite handleKeypress_on_trigger.
Qed.

Lemma null_collection_stays_null_witness :
  let props :=
    {| Props.values := None; Props.label := ""; Props.name := "n";
       Props.placeholder := ""; Props.charCodes := [13%Z; 44%Z];
       Props.deleteButton := TimesSpan; Props.extra := ∅ |} in
  State.values (after (constructor props)
                  (handleValueChange {| charCode := 0; target_value := "abc" |}))
    = None
  ∧ handleItemAdd
      (after (constructor props)
         (handleValueChange {| charCode := 0; target_value := "abc" |})) "abc"
    = mkHandler [] (Throw TypeError).
Proof.
  cbn zeta.
  pose proof (null_collection_stays_null ""
    (after {| State.values := None; State.value := "" |}
       (handleValueChange {| charCode := 0; target_value := "abc" |}))
    (reachable_call {| State.values := None; State.value := "" |}
       {| State.values := None; State.value := "" |}
       {| Props.values := None; Props.label := ""; Props.name := "n";
          Props.placeholder := ""; Props.charCodes := [13%Z; 44%Z];
          Props.deleteButton := TimesSpan; Props.extra := ∅ |}
       (CallValueChange {| charCode := 0; target_value := "abc" |})
       (reachable_init _))) as [Hnull Hcalls].
  split; [exact Hnull|].
  destruct (Hcalls
    {| Props.values := None; Props.label := ""; Props.name := "n";
       Props.placeholder := ""; Props.charCodes := [13%Z; 44%Z];
       Props.deleteButton := TimesSpan; Props.extra := ∅ |}
    (CallItemAdd "abc")) as (_ & _ & Hthrow & _).
  exact (Hthrow "abc" (or_introl eq_refl)).
Defined.

(** ** The attributes of the input *)

Lemma forwardedProps_other (props : Props.t) (k : string) :
  k ∉ ownNames → forwardedProps props !! k = Props.extra props !! k.
Proof.
  unfold ownNames. rewrite !not_elem_of_cons.
  intros (H1 & H2 & H3 & H4 & H5 & H6 & H7 & H8 & _).
  unfold forwardedProps. cbn [foldr].
  rewrite !lookup_insert_ne by done. by rewrite !lookup_delete_ne by done.
Qed.

Lemma inputProps_lookup (props : Props.t) (state : State.t) (k : string) :
  inputProps props state !! k
    = match forwardedProps props !! k with
      | Some v => Some (Forwarded v)
      | None =>
          (<["name" := Forwarded (PStr (Props.name props))]>
            (<["placeholder" := Forwarded (PStr (Props.placeholder props))]>
               (<["value" := Forwarded (PStr (State.value state))]>
                  (<["type" := Forwarded (PStr "text")]>
                     (<["onKeyPress" := Bound HandleKeypress]>
                        (<["onChange" := Bound HandleValueChange]>
                           (∅ : gmap string attrval))))))) !! k
      end.
Proof.
  unfold inputProps. rewrite lookup_union, lookup_fmap.
  set (own := <["name" := _]> _).
  by destruct (forwardedProps props !! k), (own !! k).
Qed.

(** X10.  Any further prop of the caller reaches the input as it is, and
    wins over what the component writes there: for a name other than the
    component's own props, the input's attribute of that name is the
    caller's value, be the name [value], [type], [onKeyPress] or
    [onChange]. *)
Theorem extra_props_reach_input
    (props : Props.t) (state : State.t) (k : string) (v : propval)
    (Hother : k ∉ ownNames) (Hpassed : Props.extra props !! k = Some v) :
  inputProps props state !! k = Some (Forwarded v).
Proof.
  by rewrite inputProps_lookup, forwardedProps_other, Hpassed.
Qed.

Lemma extra_props_reach_input_witness :
  let props :=
    {| Props.values := Some []; Props.label := ""; Props.name := "n";
       Props.placeholder := ""; Props.charCodes := [13%Z; 44%Z];
       Props.deleteButton := TimesSpan;
       Props.extra := {[ "value" := PStr "fixed" ]} |} in
  (("value" ∉ ownNames) ∧ Props.extra props !! "value" = Some (PStr "fixed"))
  ∧ inputProps props (holding [] "typed") !! "value" = Some (Forwarded (PStr "fixed")).
Proof.
  cbn zeta.
  assert ("value" ∉ ownNames) as H1 by compute_done.
  assert (({[ "value" := PStr "fixed" ]} : gmap string propval) !! "value"
          = Some (PStr "fixed")) as H2 by reflexivity.
  split; [done|].
  exact (extra_props_reach_input
    {| Props.values := Some []; Props.label := ""; Props.name := "n";
       Props.placeholder := ""; Props.charCodes := [13%Z; 44%Z];
       Props.deleteButton := TimesSpan;
       Props.extra := {[ "value" := PStr "fixed" ]} |}
    (holding [] "typed") "value" (PStr "fixed") H1 H2).
Defined.

(** X11.  What the spread cannot touch: the input's [name] and [placeholder]
    are always the component's props of those names; [values] and
    [charCodes] are always handed on to the input; and [label],
    [deleteButton], [onItemAdded] and [onItemDeleted] are never attributes of
    the input, whatever else the caller passes. *)
Theorem input_attributes_of_own_props (props : Props.t) (state : State.t) :
  inputProps props state !! "name" = Some (Forwarded (PStr (Props.name props)))
  ∧ inputProps props state !! "placeholder"
      = Some (Forwarded (PStr (Props.placeholder props)))
  ∧ inputProps props state !! "values"
      = Some (Forwarded (nullable_strings (Props.values props)))
  ∧ inputProps props state !! "charCodes"
      = Some (Forwarded (PNums (Props.charCodes props)))
  ∧ inputProps props state !! "label" = None
  ∧ inputProps props state !! "deleteButton" = None
  ∧ inputProps props state !! "onItemAdded" = None
  ∧ inputProps props state !! "onItemDeleted" = None.
Proof.
  rewrite !inputProps_lookup. unfold forwardedProps. cbn [foldr].
  split_and!.
  - rewrite !lookup_insert_ne by done.
    rewrite !(lookup_delete_ne _ _ "name") by done.
    by rewrite lookup_delete_eq.
  - rewrite !lookup_insert_ne by done. by rewrite lookup_delete_eq.
  - by rewrite lookup_insert_eq.
  - rewrite lookup_insert_ne by done. by rewrite lookup_insert_eq.
  - rewrite !lookup_insert_ne by done.
    rewrite (lookup_delete_ne _ "placeholder" "label") by done.
    by rewrite lookup_delete_eq.
  - rewrite !lookup_insert_ne by done.
    rewrite !(lookup_delete_ne _ _ "deleteButton") by done.
    by rewrite lookup_delete_eq.
  - rewrite !lookup_insert_ne by done.
    rewrite !(lookup_delete_ne _ _ "onItemAdded") by done.
    by rewrite lookup_delete_eq.
  - rewrite !lookup_insert_ne by done.
    rewrite !(lookup_delete_ne _ _ "onItemDeleted") by done.
    by rewrite lookup_delete_eq.
Qed.

(** ** Which handler an event reaches *)

Lemma dispatch_rendered (props : Props.t) (state : State.t) (vs : list string)
    (ev : DomEvent) :
  displayed props state = Some vs →
  dispatch props state ev =
    match ev with
    | KeyPress e => listener props state (inputProps props state !! "onKeyPress") e
    | Change e => listener props state (inputProps props state !! "onChange") e
    | Blur e => listener props state (inputProps props state !! "onBlur") e
    | RemoveClick row =>
        match vs !! row with
        | Some v => handleItemRemove state v
        | None => mret ()
        end
    end.
Proof.
  intros Hd. unfold dispatch, render. rewrite Hd. cbn [input_props valueDisplays].
  destruct ev as [e|e|e|row]; try done.
  rewrite list_lookup_fmap. by destruct (vs !! row).
Qed.

Lemma inputProps_onKeyPress (props : Props.t) (state : State.t) :
  inputProps props state !! "onKeyPress"
    = match Props.extra props !! "onKeyPress" with
      | Some v => Some (Forwarded v)
      | None => Some (Bound HandleKeypress)
      end.
Proof.
  rewrite inputProps_lookup, forwardedProps_other by compute_done.
  by destruct (Props.extra props !! "onKeyPress").
Qed.

Lemma inputProps_onChange (props : Props.t) (state : State.t) :
  inputProps props state !! "onChange"
    = match Props.extra props !! "onChange" with
      | Some v => Some (Forwarded v)
      | None => Some (Bound HandleValueChange)
      end.
Proof.
  rewrite inputProps_lookup, forwardedProps_other by compute_done.
  by destruct (Props.extra props !! "onChange").
Qed.



(** X13.  A caller that passes its own [onKeyPress] switches committing off:
    whatever key is pressed, the state stays as it was, the default action is
    not prevented and no callback is called.  Its own [onChange] likewise
    freezes the draft text. *)
Theorem own_listener_replaces_handler
    (props : Props.t) (state : State.t) (e : SyntheticEvent) :
  (is_Some (Props.extra props !! "onKeyPress") →
     after state (dispatch props state (KeyPress e)) = state
     ∧ (PreventDefault ∉ log (dispatch props state (KeyPress e)))
     ∧ added (log (dispatch props state (KeyPress e))) = [])
  ∧ (is_Some (Props.extra props !! "onChange") →
       after state (dispatch props state (Change e)) = state).
Proof.
  destruct (displayed props state) as [vs|] eqn:Hd.
  - rewrite !(dispatch_rendered _ _ vs) by done.
    rewrite inputProps_onKeyPress, inputProps_onChange.
    split; intros [v ->]; destruct v; cbn; split_and?; try done;
      try apply not_elem_of_nil;
      rewrite list_elem_of_singleton; discriminate.
  - unfold dispatch, render. rewrite Hd. cbn.
    split; intros _; split_and?; try done; apply not_elem_of_nil.
Qed.

Lemma own_listener_replaces_handler_witness :
  let props :=
    {| Props.values := Some []; Props.label := ""; Props.name := "n";
       Props.placeholder := ""; Props.charCodes := [13%Z; 44%Z];
       Props.deleteButton := TimesSpan;
       Props.extra := {[ "onKeyPress" := PCallerFn "log" ]} |} in
  is_Some (Props.extra props !! "onKeyPress")
  ∧ after (holding [] "abc")
      (dispatch props (holding [] "abc")
         (KeyPress {| charCode := 13; target_value := "abc" |}))
    = holding [] "abc".
Proof.
  cbn zeta.
  set (props :=
    {| Props.values := Some []; Props.label := ""; Props.name := "n";
       Props.placeholder := ""; Props.charCodes := [13%Z; 44%Z];
       Props.deleteButton := TimesSpan;
       Props.extra := {[ "onKeyPress" := PCallerFn "log" ]} |}).
  assert (is_Some (Props.extra props !! "onKeyPress")) as H
    by (exists (PCallerFn "log"); reflexivity).
  split; [exact H|].
  exact (proj1 (proj1 (own_listener_replaces_handler props (holding [] "abc")
                         {| charCode := 13; target_value := "abc" |}) H)).
Defined.

(** ** The rows and the props *)

Lemma rows_displayed (props : Props.t) (state : State.t) (vs : list string) :
  displayed props state = Some vs →
  ∃ view, render props state = Normal view
          ∧ item_value <$> valueDisplays view = vs
          ∧ keys view = vs
          ∧ Forall (λ item, item_key item = item_value item
                            ∧ item_deleteButton item = Props.deleteButton props)
                   (valueDisplays view).
Proof.
  intros Hd. unfold render. rewrite Hd. eexists. split; [done|].
  unfold keys. cbn. split_and!.
  - rewrite <- list_fmap_compose. apply list_fmap_id.
  - rewrite <- list_fmap_compose. apply list_fmap_id.
  - apply Forall_fmap, Forall_forall. done.
Qed.

(** X14.  While the collection is not empty the rows are the collection, and
    the [values] prop is not looked at: a change of that prop after
    construction, even to null, changes no row. *)
Theorem rows_follow_collection_while_nonempty
    (state : State.t) (l : list string)
    (Hheld : State.values state = Some l) (Hnonempty : l ≠ []) :
  ∀ props, rows props state = Normal l.
Proof.
  intros props.
  assert (displayed props state = Some l) as Hd.
  { unfold displayed. rewrite Hheld. by destruct l. }
  destruct (rows_displayed props state l Hd) as (view & Hr & Hv & _).
  unfold rows. by rewrite Hr, Hv.
Qed.

Lemma rows_follow_collection_while_nonempty_witness :
  (State.values (holding ["a"] "") = Some ["a"] ∧ ["a"] ≠ @nil string)
  ∧ rows {| Props.values := None; Props.label := ""; Props.name := "n";
            Props.placeholder := ""; Props.charCodes := [];
            Props.deleteButton := Text "x"; Props.extra := ∅ |}
         (holding ["a"] "") = Normal ["a"].
Proof.
  assert (State.values (holding ["a"] "") = Some ["a"]) as H1 by reflexivity.
  assert (["a"] ≠ @nil string) as H2 by discriminate.
  split; [done|].
  exact (rows_follow_collection_while_nonempty (holding ["a"] "") ["a"] H1 H2
    {| Props.values := None; Props.label := ""; Props.name := "n";
       Props.placeholder := ""; Props.charCodes := [];
       Props.deleteButton := Text "x"; Props.extra := ∅ |}).
Defined.

Lemma reachable_duplicate_free (init state : State.t) :
  duplicate_free init → reachable init state → duplicate_free state.
Proof.
  intros Hinit Hreach. induction Hreach as [|state props c _ IH]; [done|].
  by apply invoke_duplicate_free.
Qed.

(** X15.  With a [values] prop that holds no string twice, every render
    succeeds and gives rows with pairwise distinct keys, each row showing the
    string that is its key and the [deleteButton] prop, in every state the
    component can reach from its construction. *)
Theorem rows_have_distinct_keys
    (props : Props.t) (seed : list string) (state : State.t)
    (Hvalues : Props.values props = Some seed) (Hdistinct : NoDup seed)
    (Hreach : reachable (constructor props) state) :
  ∃ view,
    render props state = Normal view
    ∧ NoDup (keys view)
    ∧ Forall (λ item, item_key item = item_value item
                      ∧ item_deleteButton item = Props.deleteButton props)
             (valueDisplays view).
Proof.
  assert (duplicate_free state) as (l & Hl & Hnd).
  { apply (reachable_duplicate_free (constructor props)); [|done].
    exists seed. unfold constructor. by rewrite Hvalues. }
  assert (∃ vs, displayed props state = Some vs ∧ NoDup vs) as (vs & Hd & Hvs).
  { unfold displayed. rewrite Hl, Hvalues. destruct l; cbn; eauto. }
  destruct (rows_displayed props state vs Hd) as (view & Hr & _ & Hk & Hitems).
  exists view. by rewrite Hk.
Qed.

Lemma rows_have_distinct_keys_witness :
  let props :=
    {| Props.values := Some ["1"; "2"]; Props.label := ""; Props.name := "n";
       Props.placeholder := ""; Props.charCodes := [13%Z; 44%Z];
       Props.deleteButton := TimesSpan; Props.extra := ∅ |} in
  (Props.values props = Some ["1"; "2"] ∧ NoDup ["1"; "2"])
  ∧ ∃ view,
      render props (after (constructor props)
                      (handleItemRemove (constructor props) "1")) = Normal view
      ∧ NoDup (keys view).
Proof.
  cbn zeta.
  set (props :=
    {| Props.values := Some ["1"; "2"]; Props.label := ""; Props.name := "n";
       Props.placeholder := ""; Props.charCodes := [13%Z; 44%Z];
       Props.deleteButton := TimesSpan; Props.extra := ∅ |}).
  assert (Props.values props = Some ["1"; "2"]) as H1 by reflexivity.
  assert (NoDup ["1"; "2"]) as H2 by compute_done.
  split; [done|].
  destruct (rows_have_distinct_keys props ["1"; "2"]
              (after (constructor props) (handleItemRemove (constructor props) "1"))
              H1 H2
              (reachable_call (constructor props) (constructor props) props
                 (CallItemRemove "1") (reachable_init _)))
    as (view & Hr & Hk & _).
  exists view. split; [exact Hr | exact Hk].
Defined.

(** ** Typing a value and pressing a trigger key *)


